(** * gomqtt: the message package's helpers and the client's bookkeeping

    A shallow embedding of [message.go] (the validity checks and the
    length-prefixed byte helpers [readLPBytes] and [writeLPBytes]) over a
    small model of the Go runtime: byte slices as headers into a backing
    array, with the bounds checks of indexing and slicing written out, and
    run-time panics as an explicit outcome. *)

From Stdlib Require Import ZArith List String Lia.
From coqutil Require Import Byte.
From stdpp Require Import base option list strings gmap.

Local Open Scope Z_scope.

(** Bytes are the Standard Library's [Init.Byte.byte]; [byte.of_Z] is the
    truncating conversion [byte(x)] and [byte.unsigned] the value of a byte
    as an unsigned integer. *)
Abbreviation byte := Init.Byte.byte.

(* ================================================================== *)
(** * The Go runtime: outcomes, byte slices, [encoding/binary], [fmt] *)
(* ================================================================== *)

Module Go.

(** A Go call either returns a value or panics at run time. *)
Inductive run (A : Type) : Type :=
| Returned (a : A)
| Panicked.
Arguments Returned {A} a.
Arguments Panicked {A}.

#[global] Instance run_ret : MRet run := fun A a => Returned a.
#[global] Instance run_bind : MBind run := fun A B k r =>
  match r with
  | Returned a => k a
  | Panicked => Panicked
  end.

(** The backing array a slice points into. *)
Abbreviation mem := (list byte).

(** A value of type [[]byte]: the offset of its first element in the backing
    array, its length and its capacity. *)
Record slice : Type := Slice { base : nat; slen : nat; scap : nat }.

Definition len (s : slice) : Z := Z.of_nat (slen s).
Definition cap (s : slice) : Z := Z.of_nat (scap s).

(** What the runtime maintains for every slice: [len <= cap], and the
    capacity stays inside the backing array. *)
Definition wf (m : mem) (s : slice) : Prop :=
  (slen s <= scap s)%nat /\ (base s + scap s <= length m)%nat.

(** [make([]byte, n)] over a fresh array: length and capacity [n]. *)
Definition whole (m : mem) : slice := Slice 0 (length m) (length m).

(** The elements [s[0], ..., s[len(s)-1]]. *)
Definition elems (m : mem) (s : slice) : list byte :=
  take (slen s) (drop (base s) m).

(** [s[i]]: panics unless [0 <= i < len(s)]. *)
Definition index (m : mem) (s : slice) (i : Z) : run byte :=
  if (0 <=? i) && (i <? len s) then
    match m !! (base s + Z.to_nat i)%nat with
    | Some b => Returned b
    | None => Panicked
    end
  else Panicked.

(** [s[i] = v]: panics unless [0 <= i < len(s)]; writes the backing array. *)
Definition store (m : mem) (s : slice) (i : Z) (v : byte) : run mem :=
  if (0 <=? i) && (i <? len s) then
    Returned (<[(base s + Z.to_nat i)%nat := v]> m)
  else Panicked.

(** [s[lo:hi]] on a slice: panics unless [0 <= lo <= hi <= cap(s)]; the
    upper bound is the capacity, not the length. *)
Definition reslice (s : slice) (lo hi : Z) : run slice :=
  if (0 <=? lo) && (lo <=? hi) && (hi <=? cap s) then
    Returned (Slice (base s + Z.to_nat lo) (Z.to_nat (hi - lo))
                    (scap s - Z.to_nat lo))
  else Panicked.

(** [s[lo:]], that is [s[lo:len(s)]]. *)
Definition reslice_from (s : slice) (lo : Z) : run slice :=
  reslice s lo (len s).

(** [copy(dst, src)]: copies [min(len(dst), len(src))] bytes and returns
    that number.  Source and destination are slices of the same memory and
    may overlap: the bytes copied are those the source holds when the call
    starts. *)
Definition copy (m : mem) (dst src : slice) : Z * mem :=
  let n := Nat.min (slen dst) (slen src) in
  (Z.of_nat n,
   take (base dst) m ++ take n (drop (base src) m)
   ++ drop (base dst + n)%nat m).

(** [binary.BigEndian.Uint16(b)]:
    [_ = b[1]; return uint16(b[1]) | uint16(b[0])<<8]. *)
Definition Uint16 (m : mem) (b : slice) : run Z :=
  b1 ← index m b 1;
  b0 ← index m b 0;
  Returned (Z.lor (byte.unsigned b1)
                  (Z.shiftl (byte.unsigned b0) 8 mod 2 ^ 16)).

(** [binary.BigEndian.PutUint16(b, v)]:
    [_ = b[1]; b[0] = byte(v >> 8); b[1] = byte(v)]. *)
Definition PutUint16 (m : mem) (b : slice) (v : Z) : run mem :=
  _ ← index m b 1;
  m1 ← store m b 0 (byte.of_Z (Z.shiftr v 8));
  store m1 b 1 (byte.of_Z v).

(** The error value [fmt.Errorf(format, args...)] builds. *)
Record error : Type := Errorf { format : string; args : list Z }.

(** [bytes.IndexByte(b, c)]: the index of the first [c] in [b], or [-1]. *)
Fixpoint IndexByte (b : list byte) (c : byte) : Z :=
  match b with
  | [] => -1
  | x :: rest =>
      if Byte.eqb x c then 0
      else let i := IndexByte rest c in if i =? -1 then -1 else 1 + i
  end.

End Go.

(* ================================================================== *)
(** * Package [message] *)
(* ================================================================== *)

Module Message.
Import Go.

Definition maxLPString : Z := 65535.
Definition maxFixedHeaderLength : Z := 5.
Definition maxRemainingLength : Z := 268435455.

Definition QosAtMostOnce : byte := byte.of_Z 0.
Definition QosAtLeastOnce : byte := byte.of_Z 1.
Definition QosExactlyOnce : byte := byte.of_Z 2.
Definition QosFailure : Z := 128.

(** Keys of type [byte] for Go maps. *)
#[global] Instance byte_eq_dec : EqDecision byte := Byte.byte_eq_dec.
#[global] Instance byte_countable : Countable byte :=
  inj_countable Byte.to_N Byte.of_N Byte.of_to_N.

(** [SupportedVersions]: the version number (0x3 or 0x4) mapped to the
    version string. *)
Definition SupportedVersions : gmap byte string :=
  {[ byte.of_Z 3 := "MQIsdp"%string; byte.of_Z 4 := "MQTT"%string ]}.

(** [ValidTopic]: longer than 0 bytes, and no wildcard character
    ['#'] (0x23) or ['+'] (0x2b). *)
Definition ValidTopic (topic : list byte) : bool :=
  (Z.of_nat (length topic) >? 0)
  && (IndexByte topic Byte.x23 =? -1)
  && (IndexByte topic Byte.x2b =? -1).

(** [ValidQos]: one of [QosAtMostOnce], [QosAtLeastOnce], [QosExactlyOnce]. *)
Definition ValidQos (qos : byte) : bool :=
  Byte.eqb qos QosAtMostOnce || Byte.eqb qos QosAtLeastOnce
  || Byte.eqb qos QosExactlyOnce.

(** [ValidVersion]: [_, ok := SupportedVersions[v]; return ok]. *)
Definition ValidVersion (v : byte) : bool :=
  match SupportedVersions !! v with
  | Some _ => true
  | None => false
  end.

(** The values of Go's interface type [error] that [ValidConnackError]
    compares against.  The five [Err...] variables are declared in a file of
    the package that is not among the sources, so they are parameters here:
    any type of error values on which [==] is decidable, with five named
    values. *)
Class ConnackErrors (E : Type) : Type := {
  error_eq_dec :: EqDecision E;
  ErrInvalidProtocolVersion : E;
  ErrIdentifierRejected : E;
  ErrServerUnavailable : E;
  ErrBadUsernameOrPassword : E;
  ErrNotAuthorized : E
}.

(** [ValidConnackError]: is the error a Connack error or not. *)
Definition ValidConnackError `{ConnackErrors E} (err : E) : bool :=
  bool_decide (err = ErrInvalidProtocolVersion)
  || bool_decide (err = ErrIdentifierRejected)
  || bool_decide (err = ErrServerUnavailable)
  || bool_decide (err = ErrBadUsernameOrPassword)
  || bool_decide (err = ErrNotAuthorized).

(** An instance to run [ValidConnackError] on: every error value is known
    by the name of the variable that holds it. *)
Definition named_errors : ConnackErrors string := {|
  ErrInvalidProtocolVersion := "ErrInvalidProtocolVersion";
  ErrIdentifierRejected := "ErrIdentifierRejected";
  ErrServerUnavailable := "ErrServerUnavailable";
  ErrBadUsernameOrPassword := "ErrBadUsernameOrPassword";
  ErrNotAuthorized := "ErrNotAuthorized"
|}.

(** [readLPBytes]: read length prefixed bytes.  The three results are the
    returned slice ([None] for [nil]), the byte count and the error. *)
Definition readLPBytes (m : mem) (buf : slice)
  : run (option slice * Z * option error) :=
  if len buf <? 2 then
    Returned (None, 0,
      Some (Errorf "utils/readLPBytes: Insufficient buffer size. Expecting %d, got %d."
                   [2; len buf]))
  else
    let total := 0 in
    v ← Uint16 m buf;
    let n := v in
    let total := total + 2 in
    if len buf <? n then
      Returned (None, total,
        Some (Errorf "utils/readLPBytes: Insufficient buffer size. Expecting %d, got %d."
                     [n; len buf]))
    else
      let total := total + n in
      r ← reslice buf 2 total;
      Returned (Some r, total, None).

(** [writeLPBytes]: write length prefixed bytes.  The destination is
    written in place, so the backing array after the call is part of the
    result.  The payload [b] is a slice of the same memory and is read by
    [copy], after the two length bytes are stored. *)
Definition writeLPBytes (m : mem) (buf b : slice)
  : run (Z * option error * mem) :=
  let total := 0 in
  let n := len b in
  if n >? maxLPString then
    Returned (0,
      Some (Errorf "utils/writeLPBytes: Length (%d) greater than %d bytes."
                   [n; maxLPString]), m)
  else if len buf <? 2 + n then
    Returned (0,
      Some (Errorf "utils/writeLPBytes: Insufficient buffer size. Expecting %d, got %d."
                   [2 + n; len buf]), m)
  else
    m1 ← PutUint16 m buf (n mod 2 ^ 16);
    let total := total + 2 in
    dst ← reslice_from buf total;
    let '(_, m2) := copy m1 dst b in
    let total := total + n in
    Returned (total, None, m2).

End Message.

(* ================================================================== *)
(** * Package [client]: the packet-ID counter and the future store *)
(* ================================================================== *)

Module Client.

(** Modelled from the spec: the [Counter] type with [newCounter] and [next]
    is not among the sources (only [TestCounter] is).  The spec: a single
    16-bit field; [next()] returns [id], then sets [id = (id + 1) mod 65536];
    the test reads the results as [uint16] and writes the field [id]. *)
Record Counter : Type := { id : Z }.

(** Modelled from the spec: [newCounter], not among the sources; the test
    expects the first [next()] of a fresh counter to return 0. *)
Definition newCounter : Counter := {| id := 0 |}.

(** Modelled from the spec: [next] (section 4.1), not among the sources:
    it returns [id], then sets [id = (id + 1) mod 65536].  The result is the
    value returned and the counter after the call. *)
Definition next (c : Counter) : Z * Counter :=
  (id c, {| id := (id c + 1) mod 65536 |}).

(** A caller making [k] calls of [next] in a row: the values returned, in
    order, and the counter afterwards. *)
Fixpoint nexts (k : nat) (c : Counter) : list Z * Counter :=
  match k with
  | O => ([], c)
  | S k' => let '(v, c1) := next c in
            let '(vs, c2) := nexts k' c1 in (v :: vs, c2)
  end.

(** Modelled from the spec: the [futureStore] type with [newFutureStore],
    [put], [get], [del] and [all] is not among the sources (only
    [TestFutureStore] is).  The spec: a mapping from packet-ID (uint16) to an
    abstract Future handle; [put(id, f)], [get(id) -> f?], [del(id)],
    [all() -> snapshot].  The map is updated in place, so each operation
    returns the store after the call; the protective lock has no part in a
    sequential run. *)
Record futureStore (F : Type) : Type := FutureStore { entries : gmap Z F }.
Arguments FutureStore {F} entries.
Arguments entries {F} f.

(** Modelled from the spec: [newFutureStore], not among the sources; a
    fresh store tracks nothing. *)
Definition newFutureStore {F : Type} : futureStore F := FutureStore ∅.

(** Modelled from the spec: [put(id, f)], not among the sources. *)
Definition put {F : Type} (s : futureStore F) (id : Z) (f : F) : futureStore F :=
  FutureStore (<[id := f]> (entries s)).

(** Modelled from the spec: [get(id) -> f?], not among the sources. *)
Definition get {F : Type} (s : futureStore F) (id : Z) : option F :=
  entries s !! id.

(** Modelled from the spec: [del(id)], not among the sources. *)
Definition del {F : Type} (s : futureStore F) (id : Z) : futureStore F :=
  FutureStore (delete id (entries s)).

(** Modelled from the spec: [all() -> snapshot], not among the sources:
    the futures stored, one per entry, as a list. *)
Definition all {F : Type} (s : futureStore F) : list F :=
  (map_to_list (entries s)).*2.

End Client.

Import Go Message Client.

(* ================================================================== *)
(** * The runtime model: indexing, slicing and copying *)
(* ================================================================== *)

Section Runtime.
Implicit Types (m : mem) (s : slice) (b : list byte).

Lemma index_returns m s i :
  wf m s -> 0 <= i < len s ->
  exists x, index m s i = Returned x /\ m !! (base s + Z.to_nat i)%nat = Some x.
Proof.
  intros [Hlc Hcm] Hi. unfold index, len in *.
  destruct (lookup_lt_is_Some_2 m (base s + Z.to_nat i)%nat) as [x Hx]; [lia|].
  exists x. rewrite Hx.
  replace ((0 <=? i) && (i <? Z.of_nat (slen s))) with true; [done|].
  symmetry. apply andb_true_iff. split; [apply Z.leb_le | apply Z.ltb_lt]; lia.
Qed.

Lemma store_returns m s i v :
  0 <= i < len s ->
  store m s i v = Returned (<[(base s + Z.to_nat i)%nat := v]> m).
Proof.
  intros Hi. unfold store.
  replace ((0 <=? i) && (i <? len s)) with true; [done|].
  symmetry. apply andb_true_iff. split; [apply Z.leb_le | apply Z.ltb_lt]; lia.
Qed.

Lemma reslice_returns s lo hi :
  0 <= lo <= hi -> hi <= cap s ->
  reslice s lo hi =
    Returned (Slice (base s + Z.to_nat lo) (Z.to_nat (hi - lo)) (scap s - Z.to_nat lo)).
Proof.
  intros Hlo Hhi. unfold reslice.
  replace ((0 <=? lo) && (lo <=? hi) && (hi <=? cap s)) with true; [done|].
  symmetry. rewrite !andb_true_iff, !Z.leb_le. lia.
Qed.

Lemma reslice_panics s lo hi :
  cap s < hi -> reslice s lo hi = Panicked.
Proof.
  intros Hhi. unfold reslice.
  replace (hi <=? cap s) with false; [by rewrite andb_false_r|].
  symmetry. apply Z.leb_gt. lia.
Qed.

Lemma PutUint16_returns m s v :
  wf m s -> 2 <= len s ->
  PutUint16 m s v =
    Returned (<[(base s + 1)%nat := byte.of_Z v]>
                (<[base s := byte.of_Z (Z.shiftr v 8)]> m)).
Proof.
  intros Hwf Hlen. unfold PutUint16.
  destruct (index_returns m s 1 Hwf) as (x & -> & _); [lia|].
  cbn. rewrite store_returns by lia. cbn.
  rewrite store_returns by lia.
  by rewrite Nat.add_0_r.
Qed.

(** Two bytes read as a big-endian 16-bit unsigned integer. *)
Lemma lor_shiftl_bytes (hi lo : byte) :
  Z.lor (byte.unsigned lo) (Z.shiftl (byte.unsigned hi) 8 mod 2 ^ 16)
  = byte.unsigned hi * 2 ^ 8 + byte.unsigned lo.
Proof.
  pose proof (byte.unsigned_range hi) as Hhi.
  pose proof (byte.unsigned_range lo) as Hlo.
  rewrite Z.shiftl_mul_pow2 by lia.
  rewrite Z.mod_small by lia.
  rewrite Z.add_comm. symmetry. apply Z.add_nocarry_lor.
  apply Z.bits_inj'. intros k Hk.
  rewrite Z.land_spec, Z.bits_0.
  destruct (Z.lt_ge_cases k 8) as [Hlt|Hge].
  - rewrite Z.mul_pow2_bits_low by lia. apply andb_false_r.
  - rewrite <- (Z.mod_small (byte.unsigned lo) (2 ^ 8)) by lia.
    rewrite Z.mod_pow2_bits_high by lia. done.
Qed.

(** A 16-bit value split into its high and low byte, and read back. *)
Lemma split_bytes_value n :
  0 <= n < 2 ^ 16 ->
  byte.unsigned (byte.of_Z (Z.shiftr n 8)) * 2 ^ 8 + byte.unsigned (byte.of_Z n)
  = n.
Proof.
  intros Hn. rewrite !byte.unsigned_of_Z. unfold byte.wrap.
  rewrite Z.shiftr_div_pow2 by lia.
  rewrite (Z.mod_small (n / 2 ^ 8)).
  - pose proof (Z.div_mod n (2 ^ 8)). lia.
  - split; [apply Z.div_pos; lia|].
    apply Z.div_lt_upper_bound; lia.
Qed.

Lemma Uint16_returns m s (hi lo : byte) :
  2 <= len s ->
  m !! base s = Some hi -> m !! (base s + 1)%nat = Some lo ->
  Uint16 m s = Returned (byte.unsigned hi * 2 ^ 8 + byte.unsigned lo).
Proof.
  intros Hlen Hhi Hlo. unfold Uint16, index.
  replace ((0 <=? 1) && (1 <? len s)) with true
    by (symmetry; rewrite andb_true_iff, Z.leb_le, Z.ltb_lt; lia).
  replace ((0 <=? 0) && (0 <? len s)) with true
    by (symmetry; rewrite andb_true_iff, Z.leb_le, Z.ltb_lt; lia).
  change (Z.to_nat 1) with 1%nat. change (Z.to_nat 0) with 0%nat.
  rewrite Nat.add_0_r, Hhi, Hlo. cbn.
  by rewrite lor_shiftl_bytes.
Qed.

End Runtime.

(* ================================================================== *)
(** * [writeLPBytes] *)
(* ================================================================== *)

Section WriteLPBytes.
Implicit Types (m : mem) (buf b : slice).

(** A backing array split at a slice's first element. *)
Lemma mem_split_at m k :
  (k + 2 <= length m)%nat ->
  exists pre x0 x1 tl,
    m = pre ++ x0 :: x1 :: tl /\ length pre = k /\ tl = drop (k + 2) m.
Proof.
  intros Hk.
  exists (take k m).
  destruct (drop k m) as [|x0 [|x1 tl]] eqn:Hd.
  - apply (f_equal length) in Hd. rewrite length_drop in Hd. simpl in Hd. lia.
  - apply (f_equal length) in Hd. rewrite length_drop in Hd. simpl in Hd. lia.
  - exists x0, x1, tl. split_and!.
    + by rewrite <- Hd, take_drop.
    + rewrite length_take. lia.
    + by rewrite <- drop_drop, Hd.
Qed.

(** The two header bytes written over the first two elements. *)
Lemma put_header pre x0 x1 tl (hi lo : byte) :
  <[(length pre + 1)%nat := lo]> (<[length pre := hi]> (pre ++ x0 :: x1 :: tl))
  = pre ++ hi :: lo :: tl.
Proof.
  rewrite <- (Nat.add_0_r (length pre)) at 2.
  rewrite insert_app_r. cbn.
  by rewrite insert_app_r.
Qed.

Lemma around_header pre (x y : byte) tl :
  pre ++ x :: y :: tl = (pre ++ [x; y]) ++ tl.
Proof. by rewrite <- app_assoc. Qed.

(** A well-formed slice has as many elements as its length says, and
    storing bytes does not change that. *)
Lemma length_elems m b : wf m b -> length (elems m b) = slen b.
Proof.
  intros [Hlc Hcm]. unfold elems. rewrite length_take, length_drop. lia.
Qed.

Lemma wf_insert m b i (x : byte) : wf m b -> wf (<[i := x]> m) b.
Proof. unfold wf. by rewrite length_insert. Qed.

(** The elements of a slice that two stored bytes lie outside of. *)
Lemma elems_insert_apart m b k (hi lo : byte) :
  (base b + slen b <= k)%nat \/ (k + 2 <= base b)%nat ->
  elems (<[(k + 1)%nat := lo]> (<[k := hi]> m)) b = elems m b.
Proof.
  intros Hapart. unfold elems. apply list_eq. intros i.
  destruct (decide (i < slen b)%nat) as [Hi|Hi].
  - rewrite !lookup_take_lt, !lookup_drop by done.
    by rewrite !list_lookup_insert_ne by lia.
  - by rewrite !lookup_take_ge by lia.
Qed.

(** The successful path, with the backing array after the call given in
    full: the bytes before the slice, the two length bytes, the bytes the
    payload holds once the length bytes are stored, and the rest of the
    array as it was. *)
Lemma writeLPBytes_returns m buf b :
  wf m buf -> wf m b ->
  len b <= maxLPString ->
  2 + len b <= len buf ->
  writeLPBytes m buf b =
    Returned (2 + len b, None,
              take (base buf) m
              ++ [byte.of_Z (Z.shiftr (len b) 8); byte.of_Z (len b)]
              ++ elems (<[(base buf + 1)%nat := byte.of_Z (len b)]>
                          (<[base buf := byte.of_Z (Z.shiftr (len b) 8)]> m)) b
              ++ drop (base buf + 2 + slen b) m).
Proof.
  intros Hwf Hwfb Hmax Hlen. pose proof Hwf as [Hlc Hcm].
  pose proof Hwfb as [Hblc Hbcm].
  unfold maxLPString in Hmax.
  unfold writeLPBytes.
  replace (len b >? maxLPString) with false
    by (symmetry; rewrite Z.gtb_ltb; apply Z.ltb_ge; unfold maxLPString; lia).
  replace (len buf <? 2 + len b) with false
    by (symmetry; apply Z.ltb_ge; lia).
  unfold len in Hmax, Hlen.
  rewrite Z.mod_small by (unfold len; lia).
  rewrite PutUint16_returns by (done || unfold len; lia). cbn.
  unfold reslice_from. rewrite reslice_returns by (unfold len, cap; lia). cbn.
  change (0 + 2) with 2. change (Z.to_nat 2) with 2%nat.
  replace (Z.to_nat (len buf - 2) `min` slen b)%nat with (slen b)
    by (unfold len; lia).
  fold (elems (<[(base buf + 1)%nat := byte.of_Z (len b)]>
                 (<[base buf := byte.of_Z (Z.shiftr (len b) 8)]> m)) b).
  set (hi := byte.of_Z (Z.shiftr (len b) 8)).
  set (lo := byte.of_Z (len b)).
  assert (Htake : take (base buf + 2) (<[(base buf + 1)%nat := lo]> (<[base buf := hi]> m))
                  = take (base buf) m ++ [hi; lo]).
  { destruct (mem_split_at m (base buf)) as (pre & x0 & x1 & tl & -> & Hpre & _);
      [lia|].
    rewrite <- Hpre, put_header, (around_header pre hi lo tl).
    rewrite take_app_length' by (rewrite length_app; simpl; lia).
    by rewrite take_app_length. }
  rewrite Htake, <- app_assoc.
  by rewrite !drop_insert_lt by lia.
Qed.

(** The two refusals: the lengths are checked before anything is written. *)
Lemma writeLPBytes_refuses m buf b :
  len b > maxLPString \/ len buf < 2 + len b ->
  exists e, writeLPBytes m buf b = Returned (0, Some e, m).
Proof.
  intros Hbad. unfold writeLPBytes.
  destruct (Z.gtb_spec (len b) maxLPString) as [Hgt|Hle];
    [by eexists|].
  destruct (Z.ltb_spec (len buf) (2 + len b)) as [Hlt|Hge];
    [by eexists|].
  lia.
Qed.

(** What a call that returned no error did. *)
Lemma writeLPBytes_no_error m buf b n m' :
  wf m buf -> wf m b ->
  writeLPBytes m buf b = Returned (n, None, m') ->
  len b <= 65535 /\ 2 + len b <= len buf /\ n = 2 + len b /\
  m' = take (base buf) m
       ++ [byte.of_Z (Z.shiftr (len b) 8); byte.of_Z (len b)]
       ++ elems (<[(base buf + 1)%nat := byte.of_Z (len b)]>
                   (<[base buf := byte.of_Z (Z.shiftr (len b) 8)]> m)) b
       ++ drop (base buf + 2 + slen b) m.
Proof.
  intros Hwf Hwfb Hrun.
  destruct (Z.gtb_spec (len b) maxLPString) as [Hgt|Hle].
  { destruct (writeLPBytes_refuses m buf b) as [e He]; [lia|].
    rewrite He in Hrun. by simplify_eq. }
  destruct (Z.ltb_spec (len buf) (2 + len b)) as [Hlt|Hge].
  { destruct (writeLPBytes_refuses m buf b) as [e He]; [lia|].
    rewrite He in Hrun. by simplify_eq. }
  rewrite writeLPBytes_returns in Hrun by done.
  unfold maxLPString in Hle. by simplify_eq.
Qed.

(** C10, as amended.  For every destination buffer [buf] and payload [b]:
    [writeLPBytes(buf, b)] returns an error and leaves [buf] (indeed the whole
    backing array) unmodified if [len(b) > 65535] or [len(buf) < 2 + len(b)];
    otherwise it returns [2 + len(b)] with no error, the first two bytes of
    [buf] are [hi], [lo] holding the big-endian 16-bit length of [b]
    ([hi * 256 + lo = len(b)]), and they are followed by the bytes [b] holds
    once these two bytes are stored, which are the bytes of [b] as passed
    whenever [b] does not overlap [buf[0:2]]. *)
Theorem writeLPBytes_spec m buf b :
  wf m buf -> wf m b ->
  (len b > 65535 \/ len buf < 2 + len b ->
     exists e, writeLPBytes m buf b = Returned (0, Some e, m)) /\
  (len b <= 65535 /\ 2 + len b <= len buf ->
     exists m' hi lo,
       writeLPBytes m buf b = Returned (2 + len b, None, m') /\
       byte.unsigned hi * 2 ^ 8 + byte.unsigned lo = len b /\
       take (2 + slen b) (elems m' buf)
         = hi :: lo :: elems (<[(base buf + 1)%nat := lo]>
                                (<[base buf := hi]> m)) b /\
       ((base b + slen b <= base buf)%nat \/ (base buf + 2 <= base b)%nat ->
        take (2 + slen b) (elems m' buf) = hi :: lo :: elems m b)).
Proof.
  intros Hwf Hwfb. split.
  - apply writeLPBytes_refuses.
  - intros [Hmax Hlen]. pose proof Hwf as [Hlc Hcm]. unfold len in Hlen, Hmax.
    eexists _, _, _. split; [by apply writeLPBytes_returns|].
    split; [apply split_bytes_value; unfold len; lia|].
    set (m1 := <[(base buf + 1)%nat := byte.of_Z (len b)]>
                 (<[base buf := byte.of_Z (Z.shiftr (len b) 8)]> m)).
    assert (Hlen1 : length (elems m1 b) = slen b)
      by (apply length_elems; unfold m1; by do 2 apply wf_insert).
    assert (Hshape : take (2 + slen b)
               (elems (take (base buf) m
                       ++ [byte.of_Z (Z.shiftr (len b) 8); byte.of_Z (len b)]
                       ++ elems m1 b ++ drop (base buf + 2 + slen b) m) buf)
             = byte.of_Z (Z.shiftr (len b) 8) :: byte.of_Z (len b) :: elems m1 b).
    { unfold elems at 1.
      rewrite drop_app_length' by (rewrite length_take; lia).
      rewrite take_take, Nat.min_l by lia.
      change (2 + slen b)%nat with (S (S (slen b))). cbn [app firstn].
      by rewrite <- Hlen1, take_app_length. }
    split; [exact Hshape|].
    intros Hapart. rewrite Hshape. unfold m1.
    by rewrite elems_insert_apart.
Qed.

(** [writeLPBytes_spec] at a seven-byte array: the destination its first
    five bytes, the payload ["ab"] its last two. *)
Lemma writeLPBytes_spec_witness :
  let m := [byte.of_Z 9; byte.of_Z 9; byte.of_Z 9; byte.of_Z 9; byte.of_Z 9;
            byte.of_Z 97; byte.of_Z 98] in
  let buf := Slice 0 5 5 in
  let b := Slice 5 2 2 in
  (wf m buf /\ wf m b) /\
  exists m' hi lo,
    writeLPBytes m buf b = Returned (2 + len b, None, m') /\
    byte.unsigned hi * 2 ^ 8 + byte.unsigned lo = len b /\
    take (2 + slen b) (elems m' buf)
      = hi :: lo :: elems (<[(base buf + 1)%nat := lo]>
                             (<[base buf := hi]> m)) b /\
    ((base b + slen b <= base buf)%nat \/ (base buf + 2 <= base b)%nat ->
     take (2 + slen b) (elems m' buf) = hi :: lo :: elems m b).
Proof.
  intros m buf b.
  assert (Hwf : wf m buf) by (unfold wf; simpl; lia).
  assert (Hwfb : wf m b) by (unfold wf; simpl; lia).
  split; [by split|].
  apply (proj2 (writeLPBytes_spec m buf b Hwf Hwfb)).
  unfold len; simpl; lia.
Defined.

(** C10 as stated fails on the code when the payload overlaps the first two
    bytes of the destination.  On the array [09 08 07 06 05] with
    [buf = arr[0:5]] and [b = buf[1:3]] (the bytes [08 07]), the length bytes
    [00 02] are stored first and [copy] then reads [02 07] from [b]: the
    buffer starts [00 02 02 07], not [00 02 08 07]. *)
Lemma writeLPBytes_overlap :
  ~ (forall m buf b,
       wf m buf -> wf m b ->
       len b <= 65535 /\ 2 + len b <= len buf ->
       exists m' hi lo,
         writeLPBytes m buf b = Returned (2 + len b, None, m') /\
         take (2 + slen b) (elems m' buf) = hi :: lo :: elems m b /\
         byte.unsigned hi * 2 ^ 8 + byte.unsigned lo = len b).
Proof.
  intros Hclaim.
  destruct (Hclaim [byte.of_Z 9; byte.of_Z 8; byte.of_Z 7; byte.of_Z 6; byte.of_Z 5]
              (Slice 0 5 5) (Slice 1 2 4))
    as (m' & hi & lo & Hrun & Hbytes & _).
  - unfold wf. simpl. lia.
  - unfold wf. simpl. lia.
  - unfold len. simpl. lia.
  - vm_compute in Hrun. injection Hrun as <-.
    vm_compute in Hbytes. discriminate Hbytes.
Qed.

(** The bytes of the backing array outside [buf[0 : 2+len(b)]] are not
    touched, and the array keeps its length. *)
Lemma writeLPBytes_frame m buf b r m' :
  wf m buf -> wf m b ->
  writeLPBytes m buf b = Returned (r, m') ->
  length m' = length m /\
  forall i : nat,
    (i < base buf \/ base buf + 2 + slen b <= i)%nat -> m' !! i = m !! i.
Proof.
  intros Hwf Hwfb Hrun. pose proof Hwf as [Hlc Hcm].
  destruct (Z.gtb_spec (len b) maxLPString) as [Hgt|Hle].
  { destruct (writeLPBytes_refuses m buf b) as [e He]; [lia|].
    rewrite He in Hrun. by simplify_eq. }
  destruct (Z.ltb_spec (len buf) (2 + len b)) as [Hlt|Hge].
  { destruct (writeLPBytes_refuses m buf b) as [e He]; [lia|].
    rewrite He in Hrun. by simplify_eq. }
  rewrite writeLPBytes_returns in Hrun by done. simplify_eq.
  unfold len in Hge.
  set (m1 := <[(base buf + 1)%nat := byte.of_Z (len b)]>
               (<[base buf := byte.of_Z (Z.shiftr (len b) 8)]> m)).
  assert (Hlen1 : length (elems m1 b) = slen b)
    by (apply length_elems; unfold m1; by do 2 apply wf_insert).
  assert (Hlen : length (take (base buf) m) = base buf)
    by (rewrite length_take; lia).
  split.
  - rewrite length_app, Hlen. cbn [length app].
    rewrite length_app, Hlen1, length_drop. lia.
  - intros i [Hi|Hi].
    + rewrite lookup_app_l by lia. apply lookup_take_lt. lia.
    + cbn [app]. rewrite around_header.
      rewrite lookup_app_r by (rewrite length_app, Hlen; simpl; lia).
      rewrite lookup_app_r by (rewrite length_app, Hlen, Hlen1; simpl; lia).
      rewrite lookup_drop, length_app, Hlen, Hlen1. f_equal. simpl. lia.
Qed.

(** [writeLPBytes_frame] at a six-byte array, the destination its bytes
    1 to 4 and the payload its last byte: bytes 0, 4 and 5 stay as they
    were. *)
Lemma writeLPBytes_frame_witness :
  let m := [byte.of_Z 9; byte.of_Z 8; byte.of_Z 7; byte.of_Z 6; byte.of_Z 5;
            byte.of_Z 97] in
  let m' := [byte.of_Z 9; byte.of_Z 0; byte.of_Z 1; byte.of_Z 97; byte.of_Z 5;
             byte.of_Z 97] in
  length m' = length m /\
  forall i : nat,
    (i < 1 \/ 1 + 2 + slen (Slice 5 1 1) <= i)%nat -> m' !! i = m !! i.
Proof.
  intros m m'.
  apply (writeLPBytes_frame m (Slice 1 3 4) (Slice 5 1 1) (3, None) m').
  - unfold wf. simpl. lia.
  - unfold wf. simpl. lia.
  - vm_compute. reflexivity.
Defined.

End WriteLPBytes.

(* ================================================================== *)
(** * [readLPBytes] *)
(* ================================================================== *)

Section ReadLPBytes.
Implicit Types (m : mem) (buf : slice) (b : list byte).

(** The length prefix of a buffer of at least two bytes. *)
Lemma Uint16_of_buffer m buf :
  wf m buf -> 2 <= len buf ->
  exists hi lo,
    m !! base buf = Some hi /\ m !! (base buf + 1)%nat = Some lo /\
    Uint16 m buf = Returned (byte.unsigned hi * 2 ^ 8 + byte.unsigned lo).
Proof.
  intros Hwf Hlen. pose proof Hwf as [Hlc Hcm]. unfold len in Hlen.
  destruct (lookup_lt_is_Some_2 m (base buf)) as [hi Hhi]; [lia|].
  destruct (lookup_lt_is_Some_2 m (base buf + 1)%nat) as [lo Hlo]; [lia|].
  exists hi, lo. split_and!; [done..|].
  by apply Uint16_returns.
Qed.

(** A buffer shorter than the prefix is refused. *)
Lemma readLPBytes_short m buf :
  len buf < 2 ->
  exists e, readLPBytes m buf = Returned (None, 0, Some e).
Proof.
  intros Hlen. unfold readLPBytes.
  destruct (Z.ltb_spec (len buf) 2); [by eexists | lia].
Qed.

(** What the guard [len(buf) < n] establishes on the path that returns no
    error: the buffer holds at least [n] bytes (not [2 + n]), the count is
    [2 + n], and the returned slice is [buf[2 : 2+n]], which the runtime
    accepted because it ends within the capacity of [buf]. *)
Lemma readLPBytes_no_error m buf r total :
  wf m buf ->
  readLPBytes m buf = Returned (Some r, total, None) ->
  exists n,
    Uint16 m buf = Returned n /\ 0 <= n < 2 ^ 16 /\
    2 <= len buf /\ n <= len buf /\ total = 2 + n /\ 2 + n <= cap buf /\
    r = Slice (base buf + 2) (Z.to_nat n) (scap buf - 2).
Proof.
  intros Hwf. unfold readLPBytes.
  destruct (Z.ltb_spec (len buf) 2) as [|Hlen]; [done|].
  destruct (Uint16_of_buffer m buf Hwf Hlen) as (hi & lo & _ & _ & ->).
  pose proof (byte.unsigned_range hi). pose proof (byte.unsigned_range lo).
  cbn.
  destruct (Z.ltb_spec (len buf) (byte.unsigned hi * 2 ^ 8 + byte.unsigned lo))
    as [|Hn]; [done|].
  unfold reslice.
  destruct ((0 <=? 2) && (2 <=? 0 + 2 + _) && (_ <=? cap buf)) eqn:Hb; [|done].
  cbn. intros [= <- <-].
  rewrite !andb_true_iff, !Z.leb_le in Hb.
  eexists. split_and!; try done; try lia.
  f_equal. lia.
Qed.

(** On a buffer that does hold the prefix and the [n] bytes it announces,
    [readLPBytes] returns those [n] bytes and the count [2 + n]. *)
Lemma readLPBytes_returns m buf n :
  wf m buf -> 2 <= len buf ->
  Uint16 m buf = Returned n -> 0 <= n -> 2 + n <= len buf ->
  exists r,
    readLPBytes m buf = Returned (Some r, 2 + n, None) /\
    elems m r = take (Z.to_nat n) (drop (base buf + 2) m).
Proof.
  intros Hwf Hlen Hv Hn Hfit. pose proof Hwf as [Hlc Hcm].
  unfold readLPBytes. rewrite Hv. cbn.
  destruct (Z.ltb_spec (len buf) 2); [lia|].
  destruct (Z.ltb_spec (len buf) n); [lia|].
  rewrite reslice_returns by (unfold len, cap in *; lia). cbn.
  eexists. split; [done|].
  unfold elems. cbn. do 2 f_equal. lia.
Qed.

(** The gap between the guard and the slice expression: a buffer that holds
    [n] bytes but whose capacity ends before [2 + n] passes both guards and
    the call panics. *)
Lemma readLPBytes_panics m buf n :
  2 <= len buf -> Uint16 m buf = Returned n ->
  n <= len buf -> cap buf < 2 + n ->
  readLPBytes m buf = Panicked.
Proof.
  intros Hlen Hv Hn Hcap. unfold readLPBytes. rewrite Hv. cbn.
  destruct (Z.ltb_spec (len buf) 2); [lia|].
  destruct (Z.ltb_spec (len buf) n); [lia|].
  by rewrite reslice_panics by lia.
Qed.

(** C9 fails on the code.  The guard compares [len(buf)] with [n], not with
    [2 + n] as [writeLPBytes] does.  On the two bytes [00 01] (a prefix
    announcing one byte that is not there) the call passes both guards and
    the slice expression [buf[2:3]] panics when the capacity is 2; with one
    spare byte of capacity it returns, with no error, a slice that lies
    past the end of [buf] (its one element is the byte 07 behind the
    buffer), although [len(buf) = 2 < 2 + 1]. *)
Theorem readLPBytes_out_of_bounds :
  readLPBytes [byte.of_Z 0; byte.of_Z 1] (Slice 0 2 2) = Panicked /\
  wf [byte.of_Z 0; byte.of_Z 1] (Slice 0 2 2) /\
  readLPBytes [byte.of_Z 0; byte.of_Z 1; byte.of_Z 7] (Slice 0 2 3)
    = Returned (Some (Slice 2 1 1), 3, None) /\
  wf [byte.of_Z 0; byte.of_Z 1; byte.of_Z 7] (Slice 0 2 3) /\
  len (Slice 0 2 3) < 2 + 1 /\
  elems [byte.of_Z 0; byte.of_Z 1; byte.of_Z 7] (Slice 0 2 3)
    = [byte.of_Z 0; byte.of_Z 1] /\
  elems [byte.of_Z 0; byte.of_Z 1; byte.of_Z 7] (Slice 2 1 1) = [byte.of_Z 7].
Proof.
  split_and!.
  - vm_compute. reflexivity.
  - unfold wf. simpl. lia.
  - vm_compute. reflexivity.
  - unfold wf. simpl. lia.
  - unfold len. simpl. lia.
  - reflexivity.
  - reflexivity.
Qed.

(** [readLPBytes_no_error] at the three bytes [00 01 07]. *)
Lemma readLPBytes_no_error_witness :
  let m := [byte.of_Z 0; byte.of_Z 1; byte.of_Z 7] in
  exists n,
    Uint16 m (whole m) = Returned n /\ 0 <= n < 2 ^ 16 /\
    2 <= len (whole m) /\ n <= len (whole m) /\ 3 = 2 + n /\
    2 + n <= cap (whole m) /\
    Slice 2 1 1 = Slice (base (whole m) + 2) (Z.to_nat n) (scap (whole m) - 2).
Proof.
  intros m.
  apply (readLPBytes_no_error m (whole m) (Slice 2 1 1) 3).
  - unfold wf. simpl. lia.
  - vm_compute. reflexivity.
Defined.

End ReadLPBytes.

(* ================================================================== *)
(** * The validity checks *)
(* ================================================================== *)

Section Validity.

(** C6.  For every error value [e], [ValidConnackError(e)] is true if and
    only if [e] is one of exactly the five errors
    [ErrInvalidProtocolVersion], [ErrIdentifierRejected],
    [ErrServerUnavailable], [ErrBadUsernameOrPassword], [ErrNotAuthorized]. *)
Theorem ValidConnackError_iff `{ConnackErrors E} (e : E) :
  ValidConnackError e = true <->
  e = ErrInvalidProtocolVersion \/ e = ErrIdentifierRejected \/
  e = ErrServerUnavailable \/ e = ErrBadUsernameOrPassword \/
  e = ErrNotAuthorized.
Proof.
  unfold ValidConnackError.
  rewrite !orb_true_iff, !bool_decide_eq_true. tauto.
Qed.

(** The check run on error values known by name: a refusal, and the
    timeout error of the client, which is not one. *)
Example ValidConnackError_runs :
  @ValidConnackError string named_errors "ErrServerUnavailable" = true /\
  @ValidConnackError string named_errors "ErrTimeoutExceeded" = false.
Proof. split; vm_compute; reflexivity. Qed.

Lemma IndexByte_absent (b : list byte) (c : byte) :
  IndexByte b c = -1 <-> c ∉ b.
Proof.
  induction b as [|x rest IH]; cbn [IndexByte].
  - split; [intros _; apply not_elem_of_nil | done].
  - rewrite not_elem_of_cons.
    destruct (Byte.eqb x c) eqn:Hx.
    + apply Byte.byte_dec_bl in Hx. split; [done | intros [Hne _]; congruence].
    + apply Byte.eqb_false in Hx.
      assert (Hnn : forall b', -1 <= IndexByte b' c).
      { induction b' as [|y b' IHb']; cbn [IndexByte]; [lia|].
        destruct (Byte.eqb y c); [lia|].
        destruct (Z.eqb_spec (IndexByte b' c) (-1)); lia. }
      specialize (Hnn rest).
      destruct (Z.eqb_spec (IndexByte rest c) (-1)) as [Heq|Hne].
      * split; [intros _; split; [congruence | by apply IH] | done].
      * split; [lia | intros [_ Habs]; apply IH in Habs; lia].
Qed.

(** [ValidTopic]: exactly the non-empty topics without ['#'] and ['+']. *)
Lemma ValidTopic_iff (topic : list byte) :
  ValidTopic topic = true <->
  topic <> [] /\ (Byte.x23 ∉ topic) /\ (Byte.x2b ∉ topic).
Proof.
  unfold ValidTopic.
  rewrite !andb_true_iff, !Z.eqb_eq, !IndexByte_absent, Z.gtb_ltb, Z.ltb_lt.
  destruct topic; cbn [length]; split.
  - intros [[H1 _] _]. lia.
  - intros [H1 _]. done.
  - intros [[_ H2] H3]. done.
  - intros (_ & H2 & H3). split_and!; [lia | done..].
Qed.

(** [ValidQos]: exactly the levels 0, 1 and 2. *)
Lemma ValidQos_iff (qos : byte) :
  ValidQos qos = true <-> byte.unsigned qos <= 2.
Proof.
  destruct qos; vm_compute; split; intros; congruence.
Qed.

(** [ValidVersion]: exactly the versions 0x3 and 0x4. *)
Lemma ValidVersion_iff (v : byte) :
  ValidVersion v = true <-> v = Byte.x03 \/ v = Byte.x04.
Proof.
  destruct v; vm_compute; split; intros Hv;
    try discriminate; try (destruct Hv; discriminate); auto.
Qed.

End Validity.

(* ================================================================== *)
(** * The packet-ID counter *)
(* ================================================================== *)

Section CounterProps.

(** C4.  For every counter state, [next()] returns the current value of
    [id] and then sets [id] to [(id + 1) mod 65536]; a fresh counter first
    returns 0; with [id = 65535], [next()] returns 65535 and the following
    call returns 0. *)
Theorem next_spec :
  (forall c : Counter,
     fst (next c) = id c /\ id (snd (next c)) = (id c + 1) mod 65536) /\
  fst (next newCounter) = 0 /\
  fst (next {| id := 65535 |}) = 65535 /\
  fst (next (snd (next {| id := 65535 |}))) = 0.
Proof. split_and!; [intros c; split|..]; reflexivity. Qed.

(** The counter stays a 16-bit value. *)
Lemma next_range (c : Counter) : 0 <= id (snd (next c)) < 65536.
Proof. cbn. apply Z.mod_pos_bound. lia. Qed.

(** [k] calls from a 16-bit state [i] return [i, i+1, ...] modulo 65536 and
    leave the counter at [(i + k) mod 65536]. *)
Lemma nexts_spec (k : nat) (c : Counter) :
  0 <= id c < 65536 ->
  length (fst (nexts k c)) = k /\
  (forall j : nat, (j < k)%nat ->
     fst (nexts k c) !! j = Some ((id c + Z.of_nat j) mod 65536)) /\
  id (snd (nexts k c)) = (id c + Z.of_nat k) mod 65536.
Proof.
  revert c. induction k as [|k IH]; intros c Hc.
  - cbn. split_and!; [done | lia |]. rewrite Z.add_0_r, Z.mod_small; lia.
  - cbn [nexts next].
    specialize (IH {| id := (id c + 1) mod 65536 |}).
    destruct (nexts k {| id := (id c + 1) mod 65536 |}) as [vs c2] eqn:Hrun.
    cbn [fst snd id] in *.
    destruct IH as (Hlen & Hnth & Hend); [apply Z.mod_pos_bound; lia|].
    split_and!.
    + cbn. by rewrite Hlen.
    + intros [|j] Hj.
      * cbn. by rewrite Z.add_0_r, Z.mod_small.
      * cbn. rewrite Hnth by lia. f_equal.
        rewrite Zplus_mod_idemp_l. f_equal. lia.
    + rewrite Hend, Zplus_mod_idemp_l. f_equal. lia.
Qed.

(** The wrap-around of the test, as three calls in a row from 65535. *)
Example nexts_wraps :
  fst (nexts 3 {| id := 65535 |}) = [65535; 0; 1].
Proof. reflexivity. Qed.

End CounterProps.

(* ================================================================== *)
(** * The future store *)
(* ================================================================== *)

Section FutureStoreProps.
Context {F : Type}.
Implicit Types (s : futureStore F) (f g : F) (k : Z).

(** [all] lists exactly the stored futures, one per entry. *)
Lemma all_exact s :
  (forall g, g ∈ all s <-> exists k, get s k = Some g) /\
  length (all s) = size (entries s).
Proof.
  unfold all, get. split.
  - intros g. rewrite list_elem_of_fmap. split.
    + intros ([k g'] & -> & Hin). exists k. by apply elem_of_map_to_list.
    + intros [k Hk]. exists (k, g). split; [done|]. by apply elem_of_map_to_list.
  - by rewrite length_fmap, length_map_to_list.
Qed.

(** [put] leaves the other ids as they were, and so does [del]. *)
Lemma futureStore_frame s k j f :
  j <> k -> get (put s k f) j = get s j /\ get (del s k) j = get s j.
Proof.
  intros Hne. unfold get, put, del. cbn.
  by rewrite lookup_insert_ne, lookup_delete_ne.
Qed.

(** C7.  For every store [s], id [k] and future [f]: after [put(k, f)],
    [get(k)] returns [f], every other id is as it was in [s], and [all()]
    contains exactly the stored entries, one more than before if [k] was
    not tracked and as many otherwise; after [del(k)], [get(k)] returns
    nothing, every other id is as it was in [s], and [all()] lists exactly
    the other entries of [s], one fewer than before if [k] was tracked; a
    fresh store has an empty [all()] snapshot. *)
Theorem futureStore_spec s k f :
  get (put s k f) k = Some f /\
  (forall j, j <> k -> get (put s k f) j = get s j) /\
  (forall g, g ∈ all (put s k f) <-> exists j, get (put s k f) j = Some g) /\
  length (all (put s k f)) = size (entries (put s k f)) /\
  length (all (put s k f))
    = match get s k with Some _ => length (all s) | None => S (length (all s)) end /\
  get (del s k) k = None /\
  (forall j, j <> k -> get (del s k) j = get s j) /\
  (forall g, g ∈ all (del s k) <-> exists j, j <> k /\ get s j = Some g) /\
  length (all (del s k))
    = match get s k with Some _ => pred (length (all s)) | None => length (all s) end /\
  all (@newFutureStore F) = [].
Proof.
  split_and!.
  - apply lookup_insert_eq.
  - intros j Hne. by apply futureStore_frame.
  - apply all_exact.
  - apply all_exact.
  - rewrite !(proj2 (all_exact _)). unfold put, get. cbn.
    rewrite map_size_insert. by destruct (entries s !! k).
  - apply lookup_delete_eq.
  - intros j Hne. by apply futureStore_frame.
  - intros g. rewrite (proj1 (all_exact (del s k))). unfold get, del. cbn.
    split.
    + intros [j Hj]. exists j.
      apply lookup_delete_Some in Hj as [Hne Hj]. by split; [congruence|].
    + intros (j & Hne & Hj). exists j.
      apply lookup_delete_Some. by split; [congruence|].
  - rewrite !(proj2 (all_exact _)). unfold del, get. cbn.
    rewrite map_size_delete. by destruct (entries s !! k).
  - unfold all, newFutureStore. cbn. by rewrite map_to_list_empty.
Qed.

(** The run of [TestFutureStore]: sizes 0, 1, 0 and the two lookups. *)
Example futureStore_test f :
  length (all (@newFutureStore F)) = 0%nat /\
  get (put newFutureStore 1 f) 1 = Some f /\
  length (all (put newFutureStore 1 f)) = 1%nat /\
  get (del (put newFutureStore 1 f) 1) 1 = None /\
  length (all (del (put newFutureStore 1 f) 1)) = 0%nat.
Proof.
  split_and!.
  - by rewrite (proj2 (all_exact _)).
  - apply lookup_insert_eq.
  - rewrite (proj2 (all_exact _)). cbn.
    rewrite map_size_insert_None by apply lookup_empty. done.
  - apply lookup_delete_eq.
  - rewrite (proj2 (all_exact _)). cbn.
    by rewrite delete_insert_eq, delete_empty.
Qed.

End FutureStoreProps.

(* ================================================================== *)
(** * [readLPBytes]: its three outcomes *)
(* ================================================================== *)

Section ReadOutcomes.
Implicit Types (m : mem) (buf : slice) (b : list byte).

(** Past the first guard the call is decided by the prefix [n] alone. *)
Lemma readLPBytes_long m buf :
  wf m buf -> 2 <= len buf ->
  exists n,
    Uint16 m buf = Returned n /\ 0 <= n < 2 ^ 16 /\
    readLPBytes m buf =
      if len buf <? n then
        Returned (None, 2,
          Some (Errorf "utils/readLPBytes: Insufficient buffer size. Expecting %d, got %d."
                       [n; len buf]))
      else r ← reslice buf 2 (2 + n); Returned (Some r, 2 + n, None).
Proof.
  intros Hwf Hlen.
  destruct (Uint16_of_buffer m buf Hwf Hlen) as (hi & lo & _ & _ & Hv).
  pose proof (byte.unsigned_range hi). pose proof (byte.unsigned_range lo).
  eexists. split; [exact Hv|]. split; [lia|].
  unfold readLPBytes. rewrite Hv.
  destruct (Z.ltb_spec (len buf) 2); [lia|]. done.
Qed.

(** Below two bytes the prefix cannot be read at all. *)
Lemma Uint16_short m buf : len buf < 2 -> Uint16 m buf = Panicked.
Proof.
  intros Hlen. unfold Uint16, index.
  destruct (Z.ltb_spec 1 (len buf)); [lia|]. done.
Qed.

(** The error outcome.  [readLPBytes] returns an error exactly when the
    buffer is shorter than two bytes or shorter than the prefix [n] it
    announces; the slice returned with an error is [nil], and the count is 0
    when the prefix could not be read and 2 when it was read. *)
Theorem readLPBytes_error_iff m buf :
  wf m buf ->
  ((exists r total e, readLPBytes m buf = Returned (r, total, Some e)) <->
   (len buf < 2 \/ exists n, Uint16 m buf = Returned n /\ len buf < n)) /\
  (forall r total e,
     readLPBytes m buf = Returned (r, total, Some e) ->
     r = None /\ (len buf < 2 /\ total = 0 \/ 2 <= len buf /\ total = 2)).
Proof.
  intros Hwf.
  destruct (Z.lt_ge_cases (len buf) 2) as [Hshort|Hlong].
  - destruct (readLPBytes_short m buf Hshort) as [e He]. split.
    + split; [by left | intros _; by eexists _, _, _].
    + intros r total e' Hrun. rewrite He in Hrun. simplify_eq. split; [done|lia].
  - destruct (readLPBytes_long m buf Hwf Hlong) as (n & Hv & Hn & Hrun).
    rewrite Hrun.
    destruct (Z.ltb_spec (len buf) n) as [Hlt|Hge].
    + split.
      * split; [intros _; right; by exists n | intros _; by eexists _, _, _].
      * intros r total e [= <- <- _]. split; [done|lia].
    + split.
      * split.
        -- intros (r & total & e & Hr). by destruct (reslice buf 2 (2 + n)).
        -- intros [?|(n' & Hv' & Hlt)]; [lia|]. rewrite Hv in Hv'. simplify_eq. lia.
      * intros r total e Hr. by destruct (reslice buf 2 (2 + n)).
Qed.

(** [readLPBytes_error_iff] at the three bytes [00 05 61]: the prefix
    announces five bytes, the buffer holds three. *)
Lemma readLPBytes_error_iff_witness :
  let m := [byte.of_Z 0; byte.of_Z 5; byte.of_Z 97] in
  exists n, Uint16 m (whole m) = Returned n /\ len (whole m) < n /\
    exists r total e, readLPBytes m (whole m) = Returned (r, total, Some e).
Proof.
  intros m.
  assert (Hwf : wf m (whole m)) by (unfold wf; simpl; lia).
  assert (Hv : Uint16 m (whole m) = Returned 5) by (vm_compute; reflexivity).
  exists 5. split; [exact Hv|]. split; [unfold len; simpl; lia|].
  apply (proj2 (proj1 (readLPBytes_error_iff m (whole m) Hwf))).
  right. exists 5. split; [exact Hv | unfold len; simpl; lia].
Defined.

(** The panic outcome.  [readLPBytes] panics exactly when the buffer holds
    the two prefix bytes and at least [n] bytes in all, and its capacity ends
    before [2 + n]: the guard [len(buf) < n] lets the call through and the
    slice expression [buf[2:2+n]] is out of range. *)
Theorem readLPBytes_panics_iff m buf :
  wf m buf ->
  (readLPBytes m buf = Panicked <->
   exists n, 2 <= len buf /\ Uint16 m buf = Returned n /\
             n <= len buf /\ cap buf < 2 + n).
Proof.
  intros Hwf. split.
  - intros Hrun.
    destruct (Z.lt_ge_cases (len buf) 2) as [Hshort|Hlong].
    { destruct (readLPBytes_short m buf Hshort) as [e He]. congruence. }
    destruct (readLPBytes_long m buf Hwf Hlong) as (n & Hv & Hn & Hrun').
    rewrite Hrun' in Hrun.
    destruct (Z.ltb_spec (len buf) n) as [Hlt|Hge]; [done|].
    exists n. split_and!; try done.
    destruct (Z.lt_ge_cases (cap buf) (2 + n)) as [|Hcap]; [done|].
    rewrite reslice_returns in Hrun by lia. done.
  - intros (n & Hlen & Hv & Hn & Hcap). by eapply readLPBytes_panics.
Qed.

(** [readLPBytes_panics_iff] at the four bytes [00 03 61 62] with capacity
    4: the prefix announces three bytes, two are there. *)
Lemma readLPBytes_panics_iff_witness :
  let m := [byte.of_Z 0; byte.of_Z 3; byte.of_Z 97; byte.of_Z 98] in
  wf m (whole m) /\ readLPBytes m (whole m) = Panicked.
Proof.
  intros m.
  assert (Hwf : wf m (whole m)) by (unfold wf; simpl; lia).
  split; [exact Hwf|].
  apply (proj2 (readLPBytes_panics_iff m (whole m) Hwf)).
  exists 3. split_and!.
  - unfold len. simpl. lia.
  - vm_compute. reflexivity.
  - unfold len. simpl. lia.
  - unfold cap. simpl. lia.
Defined.

(** The good outcome.  On a buffer that holds the prefix and the [n] bytes
    it announces ([2 + n <= len(buf)], the bound [writeLPBytes] checks),
    [readLPBytes] returns with no error the count [2 + n] and a slice that
    starts two bytes into [buf], ends within the length of [buf], and whose
    elements are the [n] bytes of [buf] after the prefix. *)
Theorem readLPBytes_in_bounds m buf n :
  wf m buf -> 2 <= len buf ->
  Uint16 m buf = Returned n -> 0 <= n -> 2 + n <= len buf ->
  exists r,
    readLPBytes m buf = Returned (Some r, 2 + n, None) /\
    wf m r /\ len r = n /\ base r = (base buf + 2)%nat /\
    (base r + slen r <= base buf + slen buf)%nat /\
    elems m r = take (Z.to_nat n) (drop 2 (elems m buf)).
Proof.
  intros Hwf Hlen Hv Hn Hfit. pose proof Hwf as [Hlc Hcm].
  unfold readLPBytes. rewrite Hv. cbn.
  destruct (Z.ltb_spec (len buf) 2); [lia|].
  destruct (Z.ltb_spec (len buf) n); [lia|].
  unfold len, cap in *.
  rewrite reslice_returns by (unfold cap; lia). cbn.
  eexists. split; [done|].
  unfold wf, len, elems. cbn. split_and!; try lia.
  replace (Z.to_nat (0 + 2 + n - 2)) with (Z.to_nat n) by lia.
  replace (Z.to_nat 2) with 2%nat by lia.
  replace (slen buf) with (2 + (slen buf - 2))%nat by lia.
  rewrite <- take_drop_commute, take_take, drop_drop.
  by rewrite Nat.min_l by lia.
Qed.

(** [readLPBytes_in_bounds] at the five bytes [00 02 61 62 63]. *)
Lemma readLPBytes_in_bounds_witness :
  let m := [byte.of_Z 0; byte.of_Z 2; byte.of_Z 97; byte.of_Z 98; byte.of_Z 99] in
  exists r,
    readLPBytes m (whole m) = Returned (Some r, 2 + 2, None) /\
    wf m r /\ len r = 2 /\ base r = (base (whole m) + 2)%nat /\
    (base r + slen r <= base (whole m) + slen (whole m))%nat /\
    elems m r = take (Z.to_nat 2) (drop 2 (elems m (whole m))).
Proof.
  intros m.
  apply (readLPBytes_in_bounds m (whole m) 2).
  - unfold wf. simpl. lia.
  - unfold len. simpl. lia.
  - vm_compute. reflexivity.
  - lia.
  - unfold len. simpl. lia.
Defined.

End ReadOutcomes.

(* ================================================================== *)
(** * Fields written one after the other *)
(* ================================================================== *)

Section Fields.
Implicit Types (m : mem) (buf a b : slice) (pre post : list byte).

(** A field lying in the backing array at the start of a slice is read
    back by [readLPBytes]. *)
Lemma readLPBytes_at pre (b : list byte) post buf :
  wf (pre ++ [byte.of_Z (Z.shiftr (Z.of_nat (length b)) 8);
              byte.of_Z (Z.of_nat (length b))] ++ b ++ post) buf ->
  base buf = length pre ->
  Z.of_nat (length b) <= 65535 -> 2 + Z.of_nat (length b) <= len buf ->
  exists r,
    readLPBytes (pre ++ [byte.of_Z (Z.shiftr (Z.of_nat (length b)) 8);
                         byte.of_Z (Z.of_nat (length b))] ++ b ++ post) buf
      = Returned (Some r, 2 + Z.of_nat (length b), None) /\
    elems (pre ++ [byte.of_Z (Z.shiftr (Z.of_nat (length b)) 8);
                   byte.of_Z (Z.of_nat (length b))] ++ b ++ post) r = b.
Proof.
  intros Hwf Hbase Hmax Hfit.
  set (hi := byte.of_Z (Z.shiftr (Z.of_nat (length b)) 8)) in *.
  set (lo := byte.of_Z (Z.of_nat (length b))) in *.
  destruct (readLPBytes_returns (pre ++ [hi; lo] ++ b ++ post) buf
              (Z.of_nat (length b))) as (r & Hr & He); try done; try lia.
  - rewrite <- (split_bytes_value (Z.of_nat (length b))) by lia.
    apply Uint16_returns; [lia|..]; rewrite Hbase.
    + rewrite lookup_app_r by lia. by rewrite Nat.sub_diag.
    + rewrite lookup_app_r by lia.
      by replace (length pre + 1 - length pre)%nat with 1%nat by lia.
  - exists r. split; [done|]. rewrite He, Hbase.
    cbn [app]. rewrite around_header.
    rewrite drop_app_length' by (rewrite length_app; simpl; lia).
    by rewrite Nat2Z.id, take_app_length.
Qed.

(** Round trip: what [writeLPBytes] wrote, [readLPBytes] reads back.
    Whenever [writeLPBytes(buf, b)] returns no error, [readLPBytes] on the
    buffer returns, with no error, the count [2 + len(b)] and the bytes [b]
    held once the two length bytes were stored; these are the bytes of [b]
    as passed whenever [b] does not overlap [buf[0:2]]. *)
Lemma readLPBytes_writeLPBytes m buf b r m' :
  wf m buf -> wf m b ->
  writeLPBytes m buf b = Returned (r, None, m') ->
  exists s,
    readLPBytes m' buf = Returned (Some s, 2 + len b, None) /\
    elems m' s = elems (<[(base buf + 1)%nat := byte.of_Z (len b)]>
                          (<[base buf := byte.of_Z (Z.shiftr (len b) 8)]> m)) b /\
    ((base b + slen b <= base buf)%nat \/ (base buf + 2 <= base b)%nat ->
     elems m' s = elems m b).
Proof.
  intros Hwf Hwfb Hrun. pose proof Hwf as [Hlc Hcm].
  destruct (writeLPBytes_no_error m buf b r m' Hwf Hwfb Hrun)
    as (Hmax & Hfit & -> & Hm').
  set (m1 := <[(base buf + 1)%nat := byte.of_Z (len b)]>
               (<[base buf := byte.of_Z (Z.shiftr (len b) 8)]> m)) in *.
  assert (Hlen1 : length (elems m1 b) = slen b)
    by (apply length_elems; unfold m1; by do 2 apply wf_insert).
  assert (Hpre : length (take (base buf) m) = base buf)
    by (rewrite length_take; lia).
  unfold len in Hmax, Hfit.
  assert (Hlen' : length m' = length m).
  { rewrite Hm', length_app, Hpre. cbn [length app].
    rewrite length_app, Hlen1, length_drop. lia. }
  destruct (readLPBytes_at (take (base buf) m) (elems m1 b)
              (drop (base buf + 2 + slen b) m) buf) as (s & Hs & He).
  - rewrite Hlen1. fold (len b). rewrite <- Hm'. split; [done | lia].
  - done.
  - rewrite Hlen1. lia.
  - rewrite Hlen1. unfold len. lia.
  - rewrite Hlen1 in Hs, He. fold (len b) in Hs, He. rewrite <- Hm' in Hs, He.
    exists s. split_and!; [done..|].
    intros Hapart. rewrite He. unfold m1. by apply elems_insert_apart.
Qed.

(** [readLPBytes_writeLPBytes] at a seven-byte array: the destination its
    first five bytes, the payload ["ab"] its last two. *)
Lemma readLPBytes_writeLPBytes_witness :
  let m := [byte.of_Z 9; byte.of_Z 9; byte.of_Z 9; byte.of_Z 9; byte.of_Z 9;
            byte.of_Z 97; byte.of_Z 98] in
  let m' := [byte.of_Z 0; byte.of_Z 2; byte.of_Z 97; byte.of_Z 98; byte.of_Z 9;
             byte.of_Z 97; byte.of_Z 98] in
  let buf := Slice 0 5 5 in
  let b := Slice 5 2 2 in
  exists s,
    readLPBytes m' buf = Returned (Some s, 2 + len b, None) /\
    elems m' s = elems (<[(base buf + 1)%nat := byte.of_Z (len b)]>
                          (<[base buf := byte.of_Z (Z.shiftr (len b) 8)]> m)) b /\
    ((base b + slen b <= base buf)%nat \/ (base buf + 2 <= base b)%nat ->
     elems m' s = elems m b).
Proof.
  intros m m' buf b.
  apply (readLPBytes_writeLPBytes m buf b 4 m').
  - unfold wf. simpl. lia.
  - unfold wf. simpl. lia.
  - vm_compute. reflexivity.
Defined.

(** Two fields written one after the other, the second into [buf[n1:]]
    where [n1] is the count the first call returned, are both read back,
    when neither payload overlaps the two length bytes its own call stores:
    the second write leaves the first field as it was, [readLPBytes] on
    [buf] returns the count [n1] and the bytes [a] held at the first call,
    and [readLPBytes] on [buf[n1:]] returns the second count and the bytes
    [b] held at the second call. *)
Theorem writeLPBytes_twice m buf a b n1 m1 rest n2 m2 :
  wf m buf -> wf m a -> wf m b ->
  writeLPBytes m buf a = Returned (n1, None, m1) ->
  reslice_from buf n1 = Returned rest ->
  writeLPBytes m1 rest b = Returned (n2, None, m2) ->
  (base a + slen a <= base buf)%nat \/ (base buf + 2 <= base a)%nat ->
  (base b + slen b <= base rest)%nat \/ (base rest + 2 <= base b)%nat ->
  exists ra rb,
    readLPBytes m2 buf = Returned (Some ra, n1, None) /\
    elems m2 ra = elems m a /\
    readLPBytes m2 rest = Returned (Some rb, n2, None) /\
    elems m2 rb = elems m1 b.
Proof.
  intros Hwf Hwfa Hwfb Hw1 Hrest Hw2 Hapa Hapb. pose proof Hwf as [Hlc Hcm].
  destruct (writeLPBytes_no_error m buf a n1 m1 Hwf Hwfa Hw1)
    as (Hamax & Hafit & -> & Hm1).
  rewrite elems_insert_apart in Hm1 by done.
  unfold len in Hafit, Hamax.
  assert (Hla : length (elems m a) = slen a) by by apply length_elems.
  unfold reslice_from in Hrest.
  rewrite reslice_returns in Hrest by (unfold len, cap; lia).
  injection Hrest as <-.
  set (pre := take (base buf) m) in *.
  set (post := drop (base buf + 2 + slen a) m) in *.
  assert (Hpre : length pre = base buf)
    by (unfold pre; rewrite length_take; lia).
  assert (Hpost : (length post = length m - (base buf + 2 + slen a))%nat)
    by (unfold post; by rewrite length_drop).
  set (ha := byte.of_Z (Z.shiftr (len a) 8)) in *.
  set (la := byte.of_Z (len a)) in *.
  assert (Hlen1 : length m1 = length m).
  { subst m1. rewrite length_app, Hpre. cbn [length app].
    rewrite length_app, Hla, Hpost. lia. }
  set (rest := Slice (base buf + Z.to_nat (2 + len a))
                     (Z.to_nat (len buf - (2 + len a)))
                     (scap buf - Z.to_nat (2 + len a))) in *.
  assert (Hwf1 : wf m1 rest).
  { unfold wf, rest, len. cbn. rewrite Hlen1. lia. }
  assert (Hwfb1 : wf m1 b) by (unfold wf; rewrite Hlen1; apply Hwfb).
  destruct (writeLPBytes_no_error m1 rest b n2 m2 Hwf1 Hwfb1 Hw2)
    as (Hbmax & Hbfit & -> & Hm2).
  rewrite elems_insert_apart in Hm2 by done.
  assert (Hlb : length (elems m1 b) = slen b) by by apply length_elems.
  assert (Hbase : base rest = length (pre ++ [ha; la] ++ elems m a)).
  { unfold rest, len. cbn. rewrite length_app, Hpre. cbn [length app].
    rewrite Hla. lia. }
  unfold rest, len in Hbfit, Hbmax. cbn in Hbfit. unfold len in Hbfit.
  assert (Hshape : m2 = (pre ++ [ha; la] ++ elems m a)
                        ++ [byte.of_Z (Z.shiftr (len b) 8); byte.of_Z (len b)]
                        ++ elems m1 b ++ drop (2 + slen b) post).
  { assert (Hm1' : m1 = (pre ++ [ha; la] ++ elems m a) ++ post)
      by (rewrite Hm1; by rewrite <- !app_assoc).
    assert (Htk : take (base rest) m1 = pre ++ [ha; la] ++ elems m a)
      by (rewrite Hbase, Hm1'; apply take_app_length).
    assert (Hdr : drop (base rest + 2 + slen b) m1 = drop (2 + slen b) post).
    { rewrite Hbase, Hm1', <- Nat.add_assoc. by rewrite drop_app_add'. }
    by rewrite Hm2, Htk, Hdr. }
  assert (Hlen2 : length m2 = length m).
  { rewrite Hshape, !length_app, Hpre. cbn [length].
    rewrite Hla, Hlb, length_drop, Hpost. lia. }
  assert (Hflat : m2 = pre ++ [ha; la] ++ elems m a
                        ++ [byte.of_Z (Z.shiftr (len b) 8); byte.of_Z (len b)]
                        ++ elems m1 b ++ drop (2 + slen b) post)
    by (rewrite Hshape; by rewrite <- !app_assoc).
  assert (Hwf2 : wf m2 buf) by (split; [done | lia]).
  assert (Hwf2' : wf m2 rest).
  { unfold wf, rest, len. cbn. rewrite Hlen2. lia. }
  destruct (readLPBytes_at (pre ++ [ha; la] ++ elems m a) (elems m1 b)
              (drop (2 + slen b) post) rest)
    as (rb & Hrb & Heb).
  { rewrite Hlb. fold (len b). by rewrite <- Hshape. }
  { done. }
  { rewrite Hlb. lia. }
  { rewrite Hlb. unfold rest, len. cbn. unfold len. lia. }
  destruct (readLPBytes_at pre (elems m a)
              ([byte.of_Z (Z.shiftr (len b) 8); byte.of_Z (len b)]
               ++ elems m1 b ++ drop (2 + slen b) post) buf)
    as (ra & Hra & Hea).
  { rewrite Hla. fold (len a). fold ha la. by rewrite <- Hflat. }
  { done. }
  { rewrite Hla. lia. }
  { rewrite Hla. unfold len. lia. }
  rewrite Hlb in Hrb, Heb. fold (len b) in Hrb, Heb.
  rewrite <- Hshape in Hrb, Heb.
  rewrite Hla in Hra, Hea. fold (len a) in Hra, Hea. fold ha la in Hra, Hea.
  rewrite <- Hflat in Hra, Hea.
  by exists ra, rb.
Qed.

(** [writeLPBytes_twice] at an eleven-byte array: the destination its first
    eight bytes, the payloads ["a"] and ["bc"] behind it; ["a"] is written
    at the start of the buffer, then ["bc"] into [buf[3:]]. *)
Lemma writeLPBytes_twice_witness :
  let m := [byte.of_Z 9; byte.of_Z 9; byte.of_Z 9; byte.of_Z 9;
            byte.of_Z 9; byte.of_Z 9; byte.of_Z 9; byte.of_Z 9;
            byte.of_Z 97; byte.of_Z 98; byte.of_Z 99] in
  let m1 := [byte.of_Z 0; byte.of_Z 1; byte.of_Z 97; byte.of_Z 9;
             byte.of_Z 9; byte.of_Z 9; byte.of_Z 9; byte.of_Z 9;
             byte.of_Z 97; byte.of_Z 98; byte.of_Z 99] in
  let m2 := [byte.of_Z 0; byte.of_Z 1; byte.of_Z 97; byte.of_Z 0;
             byte.of_Z 2; byte.of_Z 98; byte.of_Z 99; byte.of_Z 9;
             byte.of_Z 97; byte.of_Z 98; byte.of_Z 99] in
  exists ra rb,
    readLPBytes m2 (Slice 0 8 8) = Returned (Some ra, 3, None) /\
    elems m2 ra = elems m (Slice 8 1 1) /\
    readLPBytes m2 (Slice 3 5 5) = Returned (Some rb, 4, None) /\
    elems m2 rb = elems m1 (Slice 9 2 2).
Proof.
  intros m m1 m2.
  apply (writeLPBytes_twice m (Slice 0 8 8) (Slice 8 1 1) (Slice 9 2 2)
           3 m1 (Slice 3 5 5) 4 m2).
  - unfold wf. simpl. lia.
  - unfold wf. simpl. lia.
  - unfold wf. simpl. lia.
  - vm_compute. reflexivity.
  - vm_compute. reflexivity.
  - vm_compute. reflexivity.
  - simpl. lia.
  - simpl. lia.
Defined.

(** The slice [readLPBytes] returns is a view of the buffer, not a copy:
    a byte stored afterwards through [buf] at position [2 + i] is the byte
    read through the returned slice at position [i]. *)
Theorem readLPBytes_shares_memory m buf r total i v :
  wf m buf ->
  readLPBytes m buf = Returned (Some r, total, None) ->
  0 <= i < len r -> 2 + i < len buf ->
  exists m', store m buf (2 + i) v = Returned m' /\ index m' r i = Returned v.
Proof.
  intros Hwf Hrun Hi Hin. pose proof Hwf as [Hlc Hcm].
  assert (Hlen : 2 <= len buf) by lia.
  destruct (readLPBytes_long m buf Hwf Hlen) as (n & _ & Hn & Hrun').
  rewrite Hrun' in Hrun.
  destruct (Z.ltb_spec (len buf) n); [done|].
  unfold reslice in Hrun.
  destruct ((0 <=? 2) && (2 <=? 2 + n) && (2 + n <=? cap buf)); [|done].
  cbn in Hrun. injection Hrun as <- _.
  unfold len in *. cbn [slen base] in *.
  rewrite store_returns by (unfold len; lia).
  eexists. split; [done|].
  unfold index, len. cbn [slen base].
  replace ((0 <=? i) && (i <? Z.of_nat (Z.to_nat (2 + n - 2)))) with true
    by (symmetry; rewrite andb_true_iff, Z.leb_le, Z.ltb_lt; lia).
  replace (base buf + Z.to_nat 2 + Z.to_nat i)%nat
    with (base buf + Z.to_nat (2 + i))%nat by lia.
  by rewrite list_lookup_insert_eq by lia.
Qed.

(** [readLPBytes_shares_memory] at the four bytes [00 02 61 62]: the second
    payload byte overwritten through the buffer. *)
Lemma readLPBytes_shares_memory_witness :
  let m := [byte.of_Z 0; byte.of_Z 2; byte.of_Z 97; byte.of_Z 98] in
  exists m',
    store m (whole m) (2 + 1) (byte.of_Z 122) = Returned m' /\
    index m' (Slice 2 2 2) 1 = Returned (byte.of_Z 122).
Proof.
  intros m.
  apply (readLPBytes_shares_memory m (whole m) (Slice 2 2 2) 4 1 (byte.of_Z 122)).
  - unfold wf. simpl. lia.
  - vm_compute. reflexivity.
  - unfold len. simpl. lia.
  - unfold len. simpl. lia.
Defined.

End Fields.
